(** * vault-gatekeeper-mesos: policy store and unsealers

    A shallow embedding of [policy.go] and [unsealer.go].

    - Go strings are byte strings: [string].  [[]byte] is [list byte].
    - Go [int] is [Z] (no arithmetic is performed on it here).
    - A Go map is a [gmap]; a [*policy] is an [option policy] whose [None]
      is the nil pointer.
    - The outside world (HTTP transport, JSON decoding, the digest
      functions, the network interfaces and the file system) is a record
      [Env]; the calls a function issues are logged in a [World] threaded
      through a small state monad. *)

From Stdlib Require Import ZArith Ascii String DecimalString DecimalZ DecimalPos.
From Stdlib.Strings Require Import Byte.
From stdpp Require Import base option list gmap fin_maps strings relations.

Local Open Scope string_scope.
Local Open Scope list_scope.
Local Open Scope Z_scope.

(** ** policy.go: data model *)

Record policy := {
  Policies : list string;
  Meta : gmap string string;
  Ttl : Z;
  NumUses : Z
}.

(** [*policy]: [None] is Go's nil. *)
Abbreviation ptr_policy := (option policy) (only parsing).
Abbreviation nil_policy := (@None policy) (only parsing).

(** [type policies map[string]*policy] *)
Abbreviation policies := (gmap string (option policy)) (only parsing).

Definition defaultPolicy : ptr_policy :=
  Some {| Policies := []; Meta := ∅; Ttl := 21600; NumUses := 0 |}.

Definition defaultPolicies : policies :=
  {[ "*" := Some {| Policies := ["default"]; Meta := ∅;
                    Ttl := 21600; NumUses := 0 |} ]}.

(** [activePolicies = make(policies)] *)
Definition activePolicies : policies := ∅.

(** [func (p policies) Get(key string) *policy] *)
Definition Get (p : policies) (key : string) : ptr_policy :=
  match p !! key with
  | Some pol => pol
  | None =>
      match p !! "*" with
      | Some pol => pol
      | None => defaultPolicy
      end
  end.

(** Go leaves the iteration order of [range] over a map unspecified;
    [map_to_list] stands for it.  The two loops of [Load] are sequences of
    single map operations. *)
Inductive MapOp :=
| OpDelete (k : string)               (* delete(p, k) *)
| OpStore (k : string) (v : ptr_policy). (* p[k] = v *)

Definition apply_op (p : policies) (o : MapOp) : policies :=
  match o with
  | OpDelete k => delete k p
  | OpStore k v => <[k := v]> p
  end.

Definition run_ops (ops : list MapOp) (p : policies) : policies :=
  foldl apply_op p ops.

(** [for k, _ := range p { delete(p, k) }]: a key deleted before it is
    reached is not produced later, and every iteration deletes its own
    key, so the loop visits each key of [p] once. *)
Definition clear_ops_in (ks : list string) : list MapOp := OpDelete <$> ks.

Definition clear_ops (p : policies) : list MapOp :=
  clear_ops_in (map_to_list p).*1.

(** [for k, v := range src { p[k] = v }] *)
Definition store_ops_in (kvs : list (string * option policy)) : list MapOp :=
  (λ kv, OpStore kv.1 kv.2) <$> kvs.

Definition store_ops (src : policies) : list MapOp :=
  store_ops_in (map_to_list src).

(** ** unsealer.go: data model *)

Record vaultError := { Code : Z; Errors : list string }.

Record vaultTokenResp := {
  ClientToken : string;
  LeaseDuration : Z;
  TTL : Z
}.

(** Go's [error] interface, with the implementations this code builds
    and one constructor for the errors made by the libraries (transport,
    JSON decoding, operating system). *)
Inductive error :=
| errUnknownUserIdMethod
| errUnknownHashMethod
| vaultError_err (e : vaultError)
| policyLoadError (Err : error)
| fmt_Errorf (msg : string)
| lib_err (msg : string).

(** The [Body] field of a [goreq.Request] as this code fills it. *)
Inductive ReqBody :=
| body_nil
| body_user_id (UserId : string)
| body_token (Token : string)
| body_password (Password : string).

Record Request := {
  Uri : string;
  Method : string;
  Body : ReqBody;
  MaxRedirects : Z;
  RedirectHeaders : bool;
  headers : list (string * string)
}.

Definition WithHeader (name value : string) (r : Request) : Request :=
  {| Uri := Uri r; Method := Method r; Body := Body r;
     MaxRedirects := MaxRedirects r; RedirectHeaders := RedirectHeaders r;
     headers := headers r ++ [(name, value)] |}.

Record Response := { StatusCode : Z; RespBody : string }.

(** A network call: [goreq.Request.Do] or the wrapper [VaultRequest.Do]. *)
Inductive Call :=
| goreq_Do (req : Request)
| VaultRequest_Do (req : Request).

(** [net.Interface], as far as it is used. *)
Record Interface := { HardwareAddr : list byte }.

(** What the two files call but do not define: [vaultPath], [config] and
    [VaultRequest.Do] of the other files of the package, and the Go
    libraries (goreq, encoding/json, crypto, net, io/ioutil, path). *)
Record Env := {
  vaultPath : string → string → string;
  GkPolicies : string;                       (* config.Vault.GkPolicies *)
  path_Join : list string → string;
  (* Do: the answer to a call may depend on the calls made before it *)
  transport : list Call → Call → error + Response;
  (* Body.FromJsonTo: the members the target type has a json tag for *)
  json_policies_data : string → error + gmap string (option policy);
  json_errors : string → error + list string;
  json_auth : string → error + vaultTokenResp;
  md5_Sum : list byte → list byte;
  sha1_Sum : list byte → list byte;
  sha256_Sum : list byte → list byte;
  net_InterfaceByName : string → error + Interface;
  ioutil_ReadFile : string → error + list byte
}.

(** ** Effects: the calls issued and the lines logged *)

Record World := { calls : list Call; logged : list string }.

Definition M (A : Type) : Type := World → A * World.

Definition ret {A} (a : A) : M A := λ w, (a, w).
Definition bind {A B} (m : M A) (k : A → M B) : M B :=
  λ w, let '(a, w') := m w in k a w'.

Declare Scope go_scope.
Delimit Scope go_scope with go.
Notation "'let*' x ':=' m 'in' k" := (bind m (λ x, k))
  (at level 10, x name, m at level 100, k at level 200) : go_scope.
Local Open Scope go_scope.

Definition do_call (env : Env) (c : Call) : M (error + Response) :=
  λ w, (transport env (calls w) c,
        {| calls := calls w ++ [c]; logged := logged w |}).

Definition log_Printf (line : string) : M unit :=
  λ w, (tt, {| calls := calls w; logged := logged w ++ [line] |}).

(** [encoding/hex.EncodeToString] *)
Definition hextable : string := "0123456789abcdef".

Definition hexdigit (n : N) : ascii :=
  default "0"%char (String.get (N.to_nat n) hextable).

Definition EncodeToString (src : list byte) : string :=
  foldr (λ v acc,
           String (hexdigit (N.shiftr (Byte.to_N v) 4))
             (String (hexdigit (N.land (Byte.to_N v) 15)) acc))
        EmptyString src.

(** [net.HardwareAddr.String] *)
Fixpoint HardwareAddr_loop (i : nat) (a : list byte) : string :=
  match a with
  | [] => EmptyString
  | b :: a' =>
      (if i is O then EmptyString else ":") +:+
      String (hexdigit (N.shiftr (Byte.to_N b) 4))
        (String (hexdigit (N.land (Byte.to_N b) 15))
           (HardwareAddr_loop (S i) a'))
  end.

Definition HardwareAddr_String (a : list byte) : string :=
  HardwareAddr_loop 0 a.


Section Program.
Context (env : Env).

(** [r.Body.FromJsonTo(&e)] for [e : vaultError]: the json tag of [Code]
    is a dash (the decoder skips the field), so decoding sets [Errors]
    only. *)
Definition FromJsonTo_vaultError (body : string) (e : vaultError)
  : error + vaultError :=
  match json_errors env body with
  | inr errs => inr {| Code := Code e; Errors := errs |}
  | inl err => inl err
  end.

(** The [default:] branch shared by [Load] and the two [Token]s. *)
Definition backend_error (r : Response) : vaultError :=
  let e := {| Code := StatusCode r; Errors := [] |} in
  match FromJsonTo_vaultError (RespBody r) e with
  | inr e' => e'
  | inl _ => {| Code := Code e; Errors := ["communication error."] |}
  end.

(** *** policy.go *)

Definition Load_request (authToken : string) : Request :=
  WithHeader "X-Vault-Token" authToken
    {| Uri := vaultPath env (path_Join env ["/v1/secret"; GkPolicies env]) "";
       Method := ""; Body := body_nil;
       MaxRedirects := 10; RedirectHeaders := true; headers := [] |}.

Definition decode_diagnostic : string :=
  "There was an error decoding policy from vault. This can occur when using vault-cli to save the policy json, as vault-cli saves it as a string rather than a json object.".

Definition no_policy_line : string :=
  "There was no policy in the secret backend at " +:+ GkPolicies env +:+
  ". Tokens created will have the default vault policy.".

(** [func (p policies) Load(authToken string) error]; the map [p] is
    updated in place, so the new contents are returned with the error.
    The receiver is a map of its own ([activePolicies] in this program),
    not the map [defaultPolicies] itself.  [defer r.Body.Close()] has no
    effect on what is returned or stored. *)
Definition Load (p : policies) (authToken : string)
  : M (gmap string (option policy) * option error) :=
  let* r := do_call env (VaultRequest_Do (Load_request authToken)) in
  match r with
  | inr r =>
      if StatusCode r =? 200 then
        match json_policies_data env (RespBody r) with
        | inr data =>
            ret (run_ops (clear_ops p ++ store_ops data) p, None)
        | inl _ =>
            ret (p, Some (policyLoadError (fmt_Errorf decode_diagnostic)))
        end
      else if StatusCode r =? 404 then
        let* _ := log_Printf no_policy_line in
        ret (run_ops (clear_ops p ++ store_ops defaultPolicies) p, None)
      else
        ret (p, Some (policyLoadError (vaultError_err (backend_error r))))
  | inl err => ret (p, Some (policyLoadError err))
  end.

(** *** unsealer.go *)

Record TokenUnsealer := { AuthToken : string }.

Definition lookup_self_request (t : TokenUnsealer) : Request :=
  WithHeader "X-Vault-Token" (AuthToken t)
    {| Uri := vaultPath env "/v1/auth/token/lookup-self" "";
       Method := ""; Body := body_nil; MaxRedirects := 0;
       RedirectHeaders := false; headers := [] |}.

Definition TokenUnsealer_Token (t : TokenUnsealer)
  : M (string * option error) :=
  let* r := do_call env (goreq_Do (lookup_self_request t)) in
  match r with
  | inr r =>
      if StatusCode r =? 200 then ret (AuthToken t, None)
      else ret ("", Some (vaultError_err (backend_error r)))
  | inl err => ret ("", Some err)
  end.

(** [func (g genericUnsealer) Token(req goreq.Request) (string, error)] *)
Definition genericUnsealer_Token (req : Request)
  : M (string * option error) :=
  let* r := do_call env (goreq_Do req) in
  match r with
  | inr r =>
      if StatusCode r =? 200 then
        match json_auth env (RespBody r) with
        | inr t => ret (ClientToken t, None)
        | inl err => ret ("", Some err)
        end
      else ret ("", Some (vaultError_err (backend_error r)))
  | inl err => ret ("", Some err)
  end.

Record AppIdUnsealer := {
  AppId : string;
  UserIdMethod : string;
  UserIdInterface : string;
  UserIdPath : string;
  UserIdHash : string;
  UserIdSalt : string
}.

(** The first [switch] of [AppIdUnsealer.Token]: the derived user id, or
    the error the function returns. *)
Definition derive_UserId (a : AppIdUnsealer) : error + string :=
  if String.eqb (UserIdMethod a) "mac" then
    match net_InterfaceByName env (UserIdInterface a) with
    | inr iface => inr (HardwareAddr_String (HardwareAddr iface))
    | inl err => inl err
    end
  else if String.eqb (UserIdMethod a) "file" then
    match ioutil_ReadFile env (UserIdPath a) with
    | inr b => inr (string_of_list_byte b)
    | inl err => inl err
    end
  else inl errUnknownUserIdMethod.

(** [hash.Hash] values this code creates; [None] is the nil interface. *)
Inductive Hasher := hash_md5 | hash_sha1 | hash_sha256.

(** The second [switch]. *)
Definition select_hasher (a : AppIdUnsealer) : error + option Hasher :=
  if String.eqb (UserIdHash a) "md5" then inr (Some hash_md5)
  else if String.eqb (UserIdHash a) "sha1" then inr (Some hash_sha1)
  else if String.eqb (UserIdHash a) "sha256" then inr (Some hash_sha256)
  else if String.eqb (UserIdHash a) "" then inr None
  else inl errUnknownHashMethod.

(** [hasher.Write(b)] on a fresh hasher followed by [hasher.Sum(nil)];
    [Write] of a [hash.Hash] never returns an error. *)
Definition Hasher_Sum (h : Hasher) (b : list byte) : list byte :=
  match h with
  | hash_md5 => md5_Sum env b
  | hash_sha1 => sha1_Sum env b
  | hash_sha256 => sha256_Sum env b
  end.

(** [if hasher != nil { ... }]: the user id that goes into the body. *)
Definition hashed_UserId (a : AppIdUnsealer) (hasher : option Hasher)
    (UserId : string) : string :=
  match hasher with
  | Some hs =>
      let h := UserId in
      let h := if String.eqb (UserIdSalt a) "" then h
               else UserIdSalt a +:+ "$" +:+ h in
      EncodeToString (Hasher_Sum hs (list_byte_of_string h))
  | None => UserId
  end.

Definition AppId_request (a : AppIdUnsealer) (UserId : string) : Request :=
  {| Uri := vaultPath env ("/v1/auth/app-id/login/" +:+ AppId a) "";
     Method := "POST"; Body := body_user_id UserId;
     MaxRedirects := 0; RedirectHeaders := false; headers := [] |}.

Definition AppIdUnsealer_Token (a : AppIdUnsealer)
  : M (string * option error) :=
  match derive_UserId a with
  | inl err => ret ("", Some err)
  | inr UserId =>
      match select_hasher a with
      | inl err => ret ("", Some err)
      | inr hasher =>
          genericUnsealer_Token
            (AppId_request a (hashed_UserId a hasher UserId))
      end
  end.

Record GithubUnsealer := { PersonalToken : string }.

Definition GithubUnsealer_Token (gh : GithubUnsealer)
  : M (string * option error) :=
  genericUnsealer_Token
    {| Uri := vaultPath env "/v1/auth/github/login" "";
       Method := "POST"; Body := body_token (PersonalToken gh);
       MaxRedirects := 0; RedirectHeaders := false; headers := [] |}.

Record UserpassUnsealer := { Username : string; Password : string }.

Definition UserpassUnsealer_Token (u : UserpassUnsealer)
  : M (string * option error) :=
  genericUnsealer_Token
    {| Uri := vaultPath env ("/v1/auth/userpass/login/" +:+ Username u) "";
       Method := "POST"; Body := body_password (Password u);
       MaxRedirects := 0; RedirectHeaders := false; headers := [] |}.

(** [type Unsealer interface { Token() (string, error); Name() string }] *)
Class Unsealer (T : Type) := {
  Token : T → M (string * option error);
  Name : T → string
}.

#[export] Instance TokenUnsealer_Unsealer : Unsealer TokenUnsealer :=
  {| Token := TokenUnsealer_Token; Name := λ _, "token" |}.
#[export] Instance AppIdUnsealer_Unsealer : Unsealer AppIdUnsealer :=
  {| Token := AppIdUnsealer_Token; Name := λ _, "app-id" |}.
#[export] Instance GithubUnsealer_Unsealer : Unsealer GithubUnsealer :=
  {| Token := GithubUnsealer_Token; Name := λ _, "github" |}.
#[export] Instance UserpassUnsealer_Unsealer : Unsealer UserpassUnsealer :=
  {| Token := UserpassUnsealer_Token; Name := λ _, "userpass" |}.

End Program.

(** ** Load running next to lookups

    [Load] takes no lock and [Get] takes none: a lookup made by another
    goroutine can fall between any two map operations of [Load].  Each map
    operation and each lookup is taken as one atomic step, the most the
    code could be granted. *)



(** The map operations of a [Load] that replaces the contents; [ks] and
    [kvs] are the orders in which the two [range] loops go through the old
    and the new map. *)
Definition Load_ops (ks : list string) (kvs : list (string * option policy))
  : list MapOp :=
  clear_ops_in ks ++ store_ops_in kvs.


(** The store after the first [n] map operations of [Load]. *)
Definition store_after (ks : list string)
    (kvs : list (string * option policy)) (old : policies) (n : nat)
  : gmap string (option policy) :=
  run_ops (take n (Load_ops ks kvs)) old.

(** ** A canned environment for the examples

    The transport answers every call with [answer]; the decoders return
    the canned values; the digests are stand-ins that tag their input. *)
Definition canned_env (answer : error + Response)
    (data : error + gmap string (option policy))
    (errs : error + list string) (auth : error + vaultTokenResp) : Env :=
  {| vaultPath := λ path _, "http://vault:8200" +:+ path;
     GkPolicies := "gatekeeper";
     path_Join := λ elems, foldr (λ e acc, if acc is EmptyString then e
                                           else e +:+ "/" +:+ acc)
                                 EmptyString elems;
     transport := λ _ _, answer;
     json_policies_data := λ _, data;
     json_errors := λ _, errs;
     json_auth := λ _, auth;
     md5_Sum := λ b, x01 :: b;
     sha1_Sum := λ b, x02 :: b;
     sha256_Sum := λ b, x03 :: b;
     net_InterfaceByName := λ name,
       if String.eqb name "eth0"
       then inr {| HardwareAddr := [x02; x42; xac; x11; x00; x02] |}
       else inl (lib_err "no such network interface");
     ioutil_ReadFile := λ path,
       if String.eqb path "/etc/user-id" then inr (list_byte_of_string "u")
       else inl (lib_err "no such file or directory") |}.

Definition start : World := {| calls := []; logged := [] |}.

Definition env_with_status (code : Z) : Env :=
  canned_env (inr {| StatusCode := code; RespBody := "body" |})
    (inr {[ "alice" := Some {| Policies := ["admin"]; Meta := ∅;
                               Ttl := 3600; NumUses := 1 |} ]})
    (inr ["permission denied"])
    (inr {| ClientToken := "s.issued"; LeaseDuration := 3600; TTL := 3600 |}).

Definition file_unsealer (hash salt : string) : AppIdUnsealer :=
  {| AppId := "app"; UserIdMethod := "file"; UserIdInterface := "";
     UserIdPath := "/etc/user-id"; UserIdHash := hash; UserIdSalt := salt |}.

Definition admins : policy :=
  {| Policies := ["admin"]; Meta := ∅; Ttl := 3600; NumUses := 1 |}.
Definition readers : policy :=
  {| Policies := ["read"]; Meta := ∅; Ttl := 600; NumUses := 0 |}.

(** ** The messages of the errors

    [Error()] of the error types of the two files. *)

(** [strings.Join] *)
Fixpoint strings_Join (elems : list string) (sep : string) : string :=
  match elems with
  | [] => EmptyString
  | e :: rest =>
      match rest with
      | [] => e
      | _ :: _ => e +:+ sep +:+ strings_Join rest sep
      end
  end.

(** The verb [%d] of [fmt] at an [int]. *)
Definition fmt_d (n : Z) : string := NilZero.string_of_int (Z.to_int n).

(** [func (e vaultError) Error() string] *)
Definition vaultError_Error (e : vaultError) : string :=
  fmt_d (Code e) +:+ ": " +:+ strings_Join (Errors e) ", ".

(** [Error()] of an [error]; the verb [%v] at an error prints it.  The
    two [errors.New] values carry their text, [fmt.Errorf] its message. *)
Fixpoint Error (e : error) : string :=
  match e with
  | errUnknownUserIdMethod => "Unknown method specified for user id."
  | errUnknownHashMethod => "Unknown hash method specified for user id."
  | vaultError_err e => vaultError_Error e
  | policyLoadError Err => "Error loading policy from vault: " +:+ Error Err
  | fmt_Errorf msg => msg
  | lib_err msg => msg
  end.

(** * Properties *)

Example EncodeToString_ex : EncodeToString [x00; xaf; x1c] = "00af1c".
Proof. reflexivity. Qed.

Lemma hexdigit_lowercase (v : byte) :
  In (hexdigit (N.shiftr (Byte.to_N v) 4)) (list_ascii_of_string hextable) ∧
  In (hexdigit (N.land (Byte.to_N v) 15)) (list_ascii_of_string hextable).
Proof. destruct v; vm_compute; tauto. Qed.

Lemma EncodeToString_length (src : list byte) :
  String.length (EncodeToString src) = (2 * length src)%nat.
Proof. induction src as [|v src IH]; [done|]. simpl in *. lia. Qed.

Lemma EncodeToString_lowercase (src : list byte) :
  Forall (λ ch, In ch (list_ascii_of_string hextable))
         (list_ascii_of_string (EncodeToString src)).
Proof.
  induction src as [|v src IH]; [constructor|].
  destruct (hexdigit_lowercase v) as [Hhi Hlo].
  change (EncodeToString (v :: src))
    with (String (hexdigit (N.shiftr (Byte.to_N v) 4))
            (String (hexdigit (N.land (Byte.to_N v) 15)) (EncodeToString src))).
  cbn [list_ascii_of_string].
  constructor; [exact Hhi|]. constructor; [exact Hlo|]. exact IH.
Qed.

(** The two characters [EncodeToString] writes for a byte, by character
    code: 48 is the digit zero, 97 = 87 + 10 the lowercase letter a. *)
Lemma hexdigit_code (v : byte) :
  hexdigit (N.shiftr (Byte.to_N v) 4) =
    ascii_of_N (if (Byte.to_N v / 16 <? 10)%N then 48 + Byte.to_N v / 16
                else 87 + Byte.to_N v / 16)%N ∧
  hexdigit (N.land (Byte.to_N v) 15) =
    ascii_of_N (if (Byte.to_N v mod 16 <? 10)%N then 48 + Byte.to_N v mod 16
                else 87 + Byte.to_N v mod 16)%N.
Proof. destruct v; vm_compute; split; reflexivity. Qed.

Lemma EncodeToString_get (src : list byte) (i : nat) (b : byte) :
  src !! i = Some b →
  String.get (2 * i) (EncodeToString src) =
    Some (hexdigit (N.shiftr (Byte.to_N b) 4)) ∧
  String.get (2 * i + 1) (EncodeToString src) =
    Some (hexdigit (N.land (Byte.to_N b) 15)).
Proof.
  revert i. induction src as [|v src IH]; intros i Hi; [done|].
  destruct i as [|i].
  - injection Hi as ->. done.
  - replace (2 * S i)%nat with (S (S (2 * i))) by lia.
    replace (S (S (2 * i)) + 1)%nat with (S (S (2 * i + 1))) by lia.
    apply (IH i Hi).
Qed.

(** [EncodeToString] is the lowercase hex encoding, said without the
    table: two characters per byte, the high half first, each the digit or
    the lowercase letter of its half. *)
Lemma EncodeToString_lower_hex (digest : list byte) :
  String.length (EncodeToString digest) = (2 * length digest)%nat ∧
  ∀ (i : nat) (b : byte), digest !! i = Some b →
    String.get (2 * i) (EncodeToString digest) =
      Some (ascii_of_N (if (Byte.to_N b / 16 <? 10)%N
                        then 48 + Byte.to_N b / 16
                        else 87 + Byte.to_N b / 16)%N) ∧
    String.get (2 * i + 1) (EncodeToString digest) =
      Some (ascii_of_N (if (Byte.to_N b mod 16 <? 10)%N
                        then 48 + Byte.to_N b mod 16
                        else 87 + Byte.to_N b mod 16)%N).
Proof.
  split; [apply EncodeToString_length|]. intros i b Hi.
  destruct (EncodeToString_get digest i b Hi) as [Hhi Hlo].
  destruct (hexdigit_code b) as [Ehi Elo].
  rewrite Hhi, Hlo, Ehi, Elo. done.
Qed.

Example HardwareAddr_String_ex :
  HardwareAddr_String [x00; xaf; x1c] = "00:af:1c".
Proof. reflexivity. Qed.

(** ** The two loops of [Load] *)

Lemma run_ops_app (a b : list MapOp) (p : policies) :
  run_ops (a ++ b) p = run_ops b (run_ops a p).
Proof. unfold run_ops. apply foldl_app. Qed.

Lemma lookup_run_clear (ks : list string) (p : policies) (k : string) :
  run_ops (clear_ops_in ks) p !! k = if decide (k ∈ ks) then None else p !! k.
Proof.
  revert p. induction ks as [|a ks IH]; intros p.
  - by rewrite decide_False by apply not_elem_of_nil.
  - change (run_ops (clear_ops_in (a :: ks)) p)
      with (run_ops (clear_ops_in ks) (delete a p)).
    rewrite IH. destruct (decide (k = a)) as [->|Hne].
    + rewrite lookup_delete_eq.
      destruct (decide (a ∈ a :: ks)) as [_|Hn]; [by case_decide|].
      destruct Hn. by left.
    + rewrite lookup_delete_ne by done.
      destruct (decide (k ∈ ks)) as [Hin|Hin];
        destruct (decide (k ∈ a :: ks)) as [Hin'|Hin']; try done.
      * destruct Hin'. by right.
      * apply elem_of_cons in Hin' as [?|?]; done.
Qed.

Lemma lookup_run_store (kvs : list (string * option policy))
    (p : policies) (k : string) :
  NoDup kvs.*1 →
  run_ops (store_ops_in kvs) p !! k =
    match (list_to_map kvs : gmap string (option policy)) !! k with
    | Some v => Some v
    | None => p !! k
    end.
Proof.
  revert p. induction kvs as [|[a v] kvs IH]; intros p Hnd.
  - cbn [list_to_map foldr]. by rewrite lookup_empty.
  - apply NoDup_cons in Hnd as [Ha Hnd].
    change (run_ops (store_ops_in ((a, v) :: kvs)) p)
      with (run_ops (store_ops_in kvs) (<[a:=v]> p)).
    rewrite IH by done. cbn [list_to_map foldr uncurry fst snd].
    destruct (decide (k = a)) as [->|Hne].
    + rewrite !lookup_insert_eq.
      by rewrite (not_elem_of_list_to_map_1 _ _ Ha).
    + by rewrite !lookup_insert_ne.
Qed.

(** Whatever order the two [range] loops take, the map ends up holding
    exactly the entries of [src]. *)
Lemma run_ops_replace (ks : list string) (kvs : list (string * option policy))
    (p src : policies) :
  ks ≡ₚ (map_to_list p).*1 →
  kvs ≡ₚ map_to_list src →
  run_ops (clear_ops_in ks ++ store_ops_in kvs) p = src.
Proof.
  intros Hks Hkvs. rewrite run_ops_app. apply map_eq; intros k.
  assert (NoDup kvs.*1) as Hnd.
  { rewrite Hkvs. apply NoDup_fst_map_to_list. }
  rewrite lookup_run_store by done.
  assert ((list_to_map kvs : gmap string (option policy)) = src) as ->.
  { rewrite (list_to_map_proper kvs (map_to_list src)) by done.
    apply list_to_map_to_list. }
  destruct (src !! k) eqn:Hk; [done|].
  rewrite lookup_run_clear. case_decide as Hin; [done|].
  destruct (p !! k) as [v|] eqn:Hp; [|done].
  exfalso. apply Hin. rewrite Hks.
  apply list_elem_of_fmap. exists (k, v). split; [done|].
  by apply elem_of_map_to_list.
Qed.

Lemma run_ops_Load (p src : policies) :
  run_ops (clear_ops p ++ store_ops src) p = src.
Proof. by apply run_ops_replace. Qed.

(** ** policy.go: Get *)

Lemma defaultPolicy_contents :
  ∃ d, defaultPolicy = Some d ∧ Ttl d = 21600 ∧ Policies d = [].
Proof. by eexists. Qed.

(** C1, as amended.  [Get p k] is the exact entry for [k] when [p] has
    one; otherwise the entry under the wildcard key when [p] has one;
    otherwise the process-wide default policy, whose ttl is 21600 and
    whose policy list is empty.  [Get] is total.  The pointer it returns
    is nil exactly when the entry it selected is stored as a nil pointer. *)
Theorem Get_three_tier (p : policies) (k : string) :
  (∀ pol, p !! k = Some pol → Get p k = pol) ∧
  (∀ pol, p !! k = None → p !! "*" = Some pol → Get p k = pol) ∧
  (p !! k = None → p !! "*" = None →
   Get p k = defaultPolicy ∧
   ∃ d, Get p k = Some d ∧ Ttl d = 21600 ∧ Policies d = []) ∧
  (Get p k = None ↔
   p !! k = Some None ∨ (p !! k = None ∧ p !! "*" = Some None)).
Proof.
  unfold Get. split; [|split; [|split; [|split]]].
  - by intros pol ->.
  - by intros pol -> ->.
  - intros -> ->. split; [done|]. apply defaultPolicy_contents.
  - destruct (p !! k) as [pol|] eqn:Hk.
    + intros ->. by left.
    + destruct (p !! "*") as [pol|] eqn:Hw; [|done].
      intros ->. by right.
  - intros [Hk|[Hk Hw]]; rewrite Hk; [done|]. by rewrite Hw.
Qed.

(** C1, as stated, fails: a map of type [map[string]*policy] can hold a
    nil pointer, and [Load] stores one for an entry the decoder read as
    null; [Get] then returns nil for that key. *)
Lemma Get_returns_nil :
  let env := canned_env (inr {| StatusCode := 200; RespBody := "k: null" |})
               (inr {[ "k" := nil_policy ]}) (inr []) (inl (lib_err "")) in
  let p := (Load env activePolicies "t" start).1.1 in
  p = {[ "k" := nil_policy ]} ∧ Get p "k" = None.
Proof. split; reflexivity. Qed.

(** ** policy.go: Load *)

Section LoadProperties.
Context (env : Env).

Lemma Load_inr (p : policies) tok w r :
  transport env (calls w) (VaultRequest_Do (Load_request env tok)) = inr r →
  Load env p tok w =
    (if StatusCode r =? 200 then
       match json_policies_data env (RespBody r) with
       | inr data => ret (run_ops (clear_ops p ++ store_ops data) p, None)
       | inl _ => ret (p, Some (policyLoadError (fmt_Errorf decode_diagnostic)))
       end
     else if StatusCode r =? 404 then
       let* _ := log_Printf (no_policy_line env) in
       ret (run_ops (clear_ops p ++ store_ops defaultPolicies) p, None)
     else ret (p, Some (policyLoadError (vaultError_err (backend_error env r)))))
    {| calls := calls w ++ [VaultRequest_Do (Load_request env tok)];
       logged := logged w |}.
Proof. intros Htr. unfold Load, bind, do_call. by rewrite Htr. Qed.

Lemma backend_error_Code r : Code (backend_error env r) = StatusCode r.
Proof.
  unfold backend_error, FromJsonTo_vaultError.
  by destruct (json_errors env (RespBody r)).
Qed.

Lemma backend_error_Errors r :
  Errors (backend_error env r) =
    match json_errors env (RespBody r) with
    | inr errs => errs
    | inl _ => ["communication error."]
    end.
Proof.
  unfold backend_error, FromJsonTo_vaultError.
  by destruct (json_errors env (RespBody r)).
Qed.

(** C2.  When the policy request is answered with status 200 and the body
    decodes to the mapping [D], [Load] returns no error and leaves in the
    store exactly the entries of [D]: [Get] answers every key of [D] with
    [D]'s entry, and a key of the former contents is still there only if
    [D] has it. *)
Theorem Load_200_replaces (p D : policies) tok w r :
  transport env (calls w) (VaultRequest_Do (Load_request env tok)) = inr r →
  StatusCode r = 200 →
  json_policies_data env (RespBody r) = inr D →
  ∃ (p' : policies) w',
    Load env p tok w = (p', None, w') ∧
    p' = D ∧
    (∀ k v, D !! k = Some v → Get p' k = v) ∧
    (∀ k, is_Some (p !! k) → is_Some (p' !! k) → is_Some (D !! k)).
Proof.
  intros Htr Hst HD. rewrite (Load_inr _ _ _ _ Htr), Hst, HD.
  change (200 =? 200) with true. cbv beta iota. unfold ret.
  rewrite run_ops_Load. do 2 eexists. split; [done|]. split; [done|].
  split; [|done]. intros k v Hk. unfold Get. by rewrite Hk.
Qed.

(** C3.  When the policy request is answered with a status other than 200
    and 404, [Load] returns a [policyLoadError] around a [vaultError]
    whose code is that status and whose messages are the [errors] list of
    the body, or the single message [communication error.] when the body
    does not decode; the store is as it was. *)
Theorem Load_other_status (p : policies) tok w r :
  transport env (calls w) (VaultRequest_Do (Load_request env tok)) = inr r →
  StatusCode r ≠ 200 →
  StatusCode r ≠ 404 →
  ∃ e w',
    Load env p tok w = (p, Some (policyLoadError (vaultError_err e)), w') ∧
    Code e = StatusCode r ∧
    (∀ errs, json_errors env (RespBody r) = inr errs → Errors e = errs) ∧
    (∀ err, json_errors env (RespBody r) = inl err →
            Errors e = ["communication error."]).
Proof.
  intros Htr H200 H404. rewrite (Load_inr _ _ _ _ Htr).
  apply Z.eqb_neq in H200, H404. rewrite H200, H404. unfold ret.
  exists (backend_error env r). eexists. split; [done|].
  rewrite backend_error_Code, backend_error_Errors. split; [done|].
  split; [by intros errs ->|by intros err ->].
Qed.

(** C4.  When the policy request is answered with status 404, [Load]
    returns no error and the store becomes the built-in default mapping:
    the single entry that maps the wildcard key to the policy list
    [default] with ttl 21600.  Nothing of the former contents is left. *)
Theorem Load_404_defaults (p : policies) tok w r :
  transport env (calls w) (VaultRequest_Do (Load_request env tok)) = inr r →
  StatusCode r = 404 →
  ∃ (p' : policies) w',
    Load env p tok w = (p', None, w') ∧
    p' = defaultPolicies ∧
    p' = {[ "*" := Some {| Policies := ["default"]; Meta := ∅;
                           Ttl := 21600; NumUses := 0 |} ]} ∧
    size p' = 1%nat ∧
    (∀ k, k ≠ "*" → p' !! k = None).
Proof.
  intros Htr Hst. rewrite (Load_inr _ _ _ _ Htr), Hst.
  change (404 =? 200) with false. change (404 =? 404) with true.
  cbv beta iota. unfold bind, log_Printf, ret. cbv beta iota.
  rewrite run_ops_Load. do 2 eexists. split; [done|]. split; [done|].
  split; [done|]. split; [apply map_size_singleton|].
  intros k Hk. unfold defaultPolicies. by rewrite lookup_singleton_ne.
Qed.

End LoadProperties.

(** ** unsealer.go *)

Section UnsealerProperties.
Context (env : Env).

(** C7.  When the self-lookup request is answered with status 200,
    [TokenUnsealer.Token] returns the token it was given and no error; on
    any other status it returns a [vaultError] whose code is that status
    and whose messages are the [errors] list of the body, or the single
    message [communication error.] when the body does not decode. *)
Theorem TokenUnsealer_Token_classifies (t : TokenUnsealer) w r :
  transport env (calls w) (goreq_Do (lookup_self_request env t)) = inr r →
  (StatusCode r = 200 →
   (TokenUnsealer_Token env t w).1 = (AuthToken t, None)) ∧
  (StatusCode r ≠ 200 →
   ∃ e, (TokenUnsealer_Token env t w).1 = ("", Some (vaultError_err e)) ∧
        Code e = StatusCode r ∧
        (∀ errs, json_errors env (RespBody r) = inr errs → Errors e = errs) ∧
        (∀ err, json_errors env (RespBody r) = inl err →
                Errors e = ["communication error."])).
Proof.
  intros Htr. unfold TokenUnsealer_Token, bind, do_call. rewrite Htr.
  split.
  - by intros ->.
  - intros Hst. apply Z.eqb_neq in Hst. rewrite Hst.
    exists (backend_error env r). split; [done|].
    rewrite backend_error_Code, backend_error_Errors. split; [done|].
    split; [by intros errs ->|by intros err ->].
Qed.

Lemma genericUnsealer_Token_world (req : Request) w :
  (genericUnsealer_Token env req w).2 =
    {| calls := calls w ++ [goreq_Do req]; logged := logged w |}.
Proof.
  unfold genericUnsealer_Token, bind, do_call.
  destruct (transport env (calls w) (goreq_Do req)) as [err|r]; [done|].
  destruct (StatusCode r =? 200); [|done].
  by destruct (json_auth env (RespBody r)).
Qed.

Lemma genericUnsealer_Token_calls (req : Request) w :
  calls (genericUnsealer_Token env req w).2 = calls w ++ [goreq_Do req].
Proof. by rewrite genericUnsealer_Token_world. Qed.

(** C8.  [genericUnsealer.Token] executes the request once: the calls made
    grow by that one request.  It returns what the answer to that call
    determines: the transport error itself when there is no response; on
    status 200 the [client_token] of the decoded body, or the decoder's
    error; on any other status a [vaultError] with that status and the
    decoded [errors] list, or [communication error.] when the body does
    not decode. *)
Theorem genericUnsealer_Token_once (req : Request) w :
  let out := genericUnsealer_Token env req w in
  let answer := transport env (calls w) (goreq_Do req) in
  out.2 = {| calls := calls w ++ [goreq_Do req]; logged := logged w |} ∧
  (∀ err, answer = inl err → out.1 = ("", Some err)) ∧
  (∀ r, answer = inr r → StatusCode r = 200 →
     (∀ t, json_auth env (RespBody r) = inr t →
           out.1 = (ClientToken t, None)) ∧
     (∀ err, json_auth env (RespBody r) = inl err →
             out.1 = ("", Some err))) ∧
  (∀ r, answer = inr r → StatusCode r ≠ 200 →
     ∃ e, out.1 = ("", Some (vaultError_err e)) ∧
          Code e = StatusCode r ∧
          (∀ errs, json_errors env (RespBody r) = inr errs →
                   Errors e = errs) ∧
          (∀ err, json_errors env (RespBody r) = inl err →
                  Errors e = ["communication error."])).
Proof.
  cbv zeta. split; [apply genericUnsealer_Token_world|].
  unfold genericUnsealer_Token, bind, do_call.
  destruct (transport env (calls w) (goreq_Do req)) as [err|r] eqn:Htr.
  - split; [by intros ? [= ->]|]. split; by intros.
  - split; [by intros|]. split.
    + intros r' [= <-] ->. split; [by intros t ->|by intros err ->].
    + intros r' [= <-] Hst. apply Z.eqb_neq in Hst. rewrite Hst.
      exists (backend_error env r). split; [done|].
      rewrite backend_error_Code, backend_error_Errors. split; [done|].
      split; [by intros errs ->|by intros err ->].
Qed.

Lemma select_hasher_of (a : AppIdUnsealer) :
  (UserIdHash a = "md5" → select_hasher a = inr (Some hash_md5)) ∧
  (UserIdHash a = "sha1" → select_hasher a = inr (Some hash_sha1)) ∧
  (UserIdHash a = "sha256" → select_hasher a = inr (Some hash_sha256)) ∧
  (UserIdHash a = "" → select_hasher a = inr None) ∧
  (UserIdHash a ∉ ["md5"; "sha1"; "sha256"; ""] →
   select_hasher a = inl errUnknownHashMethod).
Proof.
  unfold select_hasher. repeat split.
  - by intros ->.
  - by intros ->.
  - by intros ->.
  - by intros ->.
  - intros Hnot.
    destruct (String.eqb_spec (UserIdHash a) "md5") as [E|_];
      [destruct Hnot; rewrite E; set_solver|].
    destruct (String.eqb_spec (UserIdHash a) "sha1") as [E|_];
      [destruct Hnot; rewrite E; set_solver|].
    destruct (String.eqb_spec (UserIdHash a) "sha256") as [E|_];
      [destruct Hnot; rewrite E; set_solver|].
    destruct (String.eqb_spec (UserIdHash a) "") as [E|_];
      [destruct Hnot; rewrite E; set_solver|].
    done.
Qed.

Lemma salted (a : AppIdUnsealer) (hs : Hasher) (u : string) :
  UserIdSalt a ≠ "" →
  hashed_UserId env a (Some hs) u =
    EncodeToString
      (Hasher_Sum env hs (list_byte_of_string (UserIdSalt a +:+ "$" +:+ u))).
Proof.
  intros Hsalt. unfold hashed_UserId.
  by destruct (String.eqb_spec (UserIdSalt a) "").
Qed.

(** C5.  With a derived user id [u] and a non-empty salt, [Token] of the
    app-id unsealer sends as [user_id] the lowercase hex encoding of the
    SHA-256 digest of the salt, a dollar sign and [u] when the hash method
    is [sha256], and likewise the MD5 and the SHA-1 digest for [md5] and
    [sha1]; a hash method that is none of these and not empty makes it
    return [errUnknownHashMethod], before any call.  The encoding is said
    by character codes: two characters per byte of the digest, the high
    half first, a half below ten as its digit (code 48 and up) and the
    others as the lowercase letters a to f (code 97 and up). *)
Theorem AppIdUnsealer_Token_hashes (a : AppIdUnsealer) (u : string) w :
  derive_UserId env a = inr u →
  let salted := list_byte_of_string (UserIdSalt a +:+ "$" +:+ u) in
  let code (n : N) : N := (if n <? 10 then 48 + n else 87 + n)%N in
  let lower_hex_of (digest : list byte) (uid : string) :=
    String.length uid = (2 * length digest)%nat ∧
    ∀ (i : nat) (b : byte), digest !! i = Some b →
      String.get (2 * i) uid = Some (ascii_of_N (code (Byte.to_N b / 16)%N)) ∧
      String.get (2 * i + 1) uid =
        Some (ascii_of_N (code (Byte.to_N b mod 16)%N)) in
  let sends digest :=
    ∃ req, calls (AppIdUnsealer_Token env a w).2 = calls w ++ [goreq_Do req] ∧
           req = AppId_request env a (EncodeToString digest) ∧
           Body req = body_user_id (EncodeToString digest) ∧
           lower_hex_of digest (EncodeToString digest) in
  (UserIdSalt a ≠ "" →
   (UserIdHash a = "sha256" → sends (sha256_Sum env salted)) ∧
   (UserIdHash a = "md5" → sends (md5_Sum env salted)) ∧
   (UserIdHash a = "sha1" → sends (sha1_Sum env salted))) ∧
  (UserIdHash a ∉ ["md5"; "sha1"; "sha256"; ""] →
   AppIdUnsealer_Token env a w = ("", Some errUnknownHashMethod, w)).
Proof.
  intros Hu. cbv zeta. unfold AppIdUnsealer_Token. rewrite Hu.
  destruct (select_hasher_of a) as (Hmd5 & Hsha1 & Hsha256 & _ & Hbad).
  split; [intros Hsalt; split; [|split]|].
  - intros Hh. rewrite (Hsha256 Hh), genericUnsealer_Token_calls.
    eexists. split; [done|]. rewrite salted by done.
    split; [done|]. split; [done|]. apply EncodeToString_lower_hex.
  - intros Hh. rewrite (Hmd5 Hh), genericUnsealer_Token_calls.
    eexists. split; [done|]. rewrite salted by done.
    split; [done|]. split; [done|]. apply EncodeToString_lower_hex.
  - intros Hh. rewrite (Hsha1 Hh), genericUnsealer_Token_calls.
    eexists. split; [done|]. rewrite salted by done.
    split; [done|]. split; [done|]. apply EncodeToString_lower_hex.
  - intros Hh. by rewrite (Hbad Hh).
Qed.

(** C6.  When [UserIdMethod] is neither [mac] nor [file], [Token] of the
    app-id unsealer returns [errUnknownUserIdMethod] and makes no call:
    the world, and with it the list of calls, is as before. *)
Theorem AppIdUnsealer_Token_unknown_method (a : AppIdUnsealer) w :
  UserIdMethod a ≠ "mac" →
  UserIdMethod a ≠ "file" →
  AppIdUnsealer_Token env a w = ("", Some errUnknownUserIdMethod, w) ∧
  calls (AppIdUnsealer_Token env a w).2 = calls w.
Proof.
  intros Hmac Hfile. unfold AppIdUnsealer_Token, derive_UserId.
  destruct (String.eqb_spec (UserIdMethod a) "mac"); [done|].
  by destruct (String.eqb_spec (UserIdMethod a) "file").
Qed.

(** C10.  When [UserIdHash] is empty, [Token] of the app-id unsealer sends
    the derived user id as it was derived, whatever [UserIdSalt] is. *)
Theorem AppIdUnsealer_Token_no_hash (a : AppIdUnsealer) (u : string) w :
  derive_UserId env a = inr u →
  UserIdHash a = "" →
  ∃ req, calls (AppIdUnsealer_Token env a w).2 = calls w ++ [goreq_Do req] ∧
         Body req = body_user_id u.
Proof.
  intros Hu Hh. unfold AppIdUnsealer_Token. rewrite Hu.
  destruct (select_hasher_of a) as (_ & _ & _ & Hnone & _).
  rewrite (Hnone Hh), genericUnsealer_Token_calls. by eexists.
Qed.

End UnsealerProperties.

(** ** Load running next to lookups *)

Section Interleaving.
Context (ks : list string) (kvs : list (string * option policy)).
Context (old D : gmap string (option policy)).
Context (Hks : ks ≡ₚ (map_to_list old).*1) (Hkvs : kvs ≡ₚ map_to_list D).

#[local] Abbreviation ops := (Load_ops ks kvs).
#[local] Abbreviation after := (store_after ks kvs old).



Lemma NoDup_kvs : NoDup kvs.*1.
Proof. rewrite Hkvs. apply NoDup_fst_map_to_list. Qed.

Lemma cleared : run_ops (clear_ops_in ks) old = ∅.
Proof.
  apply map_eq; intros k. rewrite lookup_run_clear, lookup_empty.
  case_decide as Hin; [done|]. destruct (old !! k) as [v|] eqn:Hk; [|done].
  destruct Hin. rewrite Hks. apply list_elem_of_fmap. exists (k, v).
  split; [done|]. by apply elem_of_map_to_list.
Qed.

(** While [Load] clears, the store is part of the old mapping; while it
    stores, the store is part of the new one. *)
Lemma after_submap (n : nat) : after n ⊆ old ∨ after n ⊆ D.
Proof.
  unfold store_after, Load_ops.
  destruct (decide (n ≤ length (clear_ops_in ks))%nat) as [Hle|Hgt].
  - left. rewrite take_app_le by done. unfold clear_ops_in.
    rewrite <-fmap_take. apply map_subseteq_spec; intros k v.
    change (OpDelete <$> take n ks) with (clear_ops_in (take n ks)).
    rewrite lookup_run_clear. by case_decide.
  - right. rewrite take_app_ge by lia. rewrite run_ops_app, cleared.
    unfold store_ops_in. rewrite <-fmap_take.
    set (j := (n - length (clear_ops_in ks))%nat).
    change (run_ops (store_ops_in (take j kvs)) ∅ ⊆ D).
    assert (NoDup (take j kvs).*1) as Hnd.
    { rewrite fmap_take. eapply sublist_NoDup; [apply NoDup_kvs|].
      apply sublist_take. }
    apply map_subseteq_spec; intros k v. rewrite lookup_run_store by done.
    destruct (list_to_map (take j kvs) !! k) as [v'|] eqn:Hk;
      [|by rewrite lookup_empty].
    intros [= ->]. apply elem_of_list_to_map_2 in Hk.
    apply elem_of_map_to_list. rewrite <-Hkvs.
    by apply (subseteq_take j kvs).
Qed.







End Interleaving.

(** ** The theorems at concrete inputs *)

Lemma Load_200_replaces_witness :
  let env := env_with_status 200 in
  let p : gmap string (option policy) := {[ "bob" := Some readers ]} in
  ∃ w', Load env p "t" start = ({[ "alice" := Some admins ]}, None, w') ∧
        Get (Load env p "t" start).1.1 "alice" = Some admins ∧
        (Load env p "t" start).1.1 !! "bob" = None.
Proof.
  intros env p.
  destruct (Load_200_replaces env p {[ "alice" := Some admins ]} "t" start
              {| StatusCode := 200; RespBody := "body" |}
              eq_refl eq_refl eq_refl)
    as (p' & w' & HLoad & -> & HGet & _).
  exists w'. rewrite HLoad. split; [reflexivity|].
  split; [|reflexivity]. apply HGet. reflexivity.
Defined.

Lemma Load_other_status_witness :
  let env := env_with_status 500 in
  let p : gmap string (option policy) := {[ "bob" := Some readers ]} in
  ∃ w', Load env p "t" start =
          (p, Some (policyLoadError (vaultError_err
                      {| Code := 500; Errors := ["permission denied"] |})), w').
Proof.
  intros env p.
  destruct (Load_other_status env p "t" start
              {| StatusCode := 500; RespBody := "body" |} eq_refl)
    as ([code errs] & w' & HLoad & Hcode & Herrs & _).
  - discriminate.
  - discriminate.
  - exists w'. rewrite HLoad. simpl in Hcode. simpl in Herrs.
    rewrite Hcode, (Herrs _ eq_refl). reflexivity.
Defined.

Lemma Load_404_defaults_witness :
  let env := env_with_status 404 in
  let p : gmap string (option policy) := {[ "bob" := Some readers ]} in
  ∃ w', Load env p "t" start = (defaultPolicies, None, w') ∧
        (Load env p "t" start).1.1 !! "bob" = None.
Proof.
  intros env p.
  destruct (Load_404_defaults env p "t" start
              {| StatusCode := 404; RespBody := "body" |} eq_refl eq_refl)
    as (p' & w' & HLoad & -> & _ & _ & Hgone).
  exists w'. rewrite HLoad. split; [reflexivity|]. apply Hgone. discriminate.
Defined.

Lemma TokenUnsealer_Token_classifies_witness :
  (TokenUnsealer_Token (env_with_status 200) {| AuthToken := "s.static" |}
     start).1 = ("s.static", None) ∧
  ∃ e, (TokenUnsealer_Token (env_with_status 403) {| AuthToken := "s.static" |}
          start).1 = ("", Some (vaultError_err e)) ∧
       Code e = 403 ∧ Errors e = ["permission denied"].
Proof.
  split.
  - apply (TokenUnsealer_Token_classifies (env_with_status 200)
             {| AuthToken := "s.static" |} start
             {| StatusCode := 200; RespBody := "body" |} eq_refl).
    reflexivity.
  - destruct (TokenUnsealer_Token_classifies (env_with_status 403)
                {| AuthToken := "s.static" |} start
                {| StatusCode := 403; RespBody := "body" |} eq_refl)
      as [_ Hfail].
    destruct Hfail as (e & Hres & Hcode & Herrs & _); [discriminate|].
    exists e. split; [exact Hres|]. split; [exact Hcode|].
    apply Herrs. reflexivity.
Defined.

Lemma AppIdUnsealer_Token_hashes_witness :
  let env := env_with_status 200 in
  derive_UserId env (file_unsealer "sha256" "s") = inr "u" ∧
  sha256_Sum env (list_byte_of_string "s$u") = [x03; x73; x24; x75] ∧
  ∃ req,
    calls (AppIdUnsealer_Token env (file_unsealer "sha256" "s") start).2 =
      [goreq_Do req] ∧
    Body req = body_user_id "03732475".
Proof.
  intros env. split; [reflexivity|]. split; [reflexivity|].
  destruct (AppIdUnsealer_Token_hashes env (file_unsealer "sha256" "s") "u"
              start eq_refl) as [Hsalted _].
  destruct Hsalted as [Hsha256 _]; [discriminate|].
  destruct (Hsha256 eq_refl) as (req & Hcalls & _ & Hbody & _).
  exists req. split; [exact Hcalls|exact Hbody].
Defined.

Lemma AppIdUnsealer_Token_unknown_method_witness :
  let a := {| AppId := "app"; UserIdMethod := "hostname";
              UserIdInterface := "eth0"; UserIdPath := "/etc/user-id";
              UserIdHash := "sha256"; UserIdSalt := "s" |} in
  AppIdUnsealer_Token (env_with_status 200) a start =
    ("", Some errUnknownUserIdMethod, start).
Proof.
  intros a.
  apply (AppIdUnsealer_Token_unknown_method (env_with_status 200) a start);
    discriminate.
Defined.

Lemma AppIdUnsealer_Token_no_hash_witness :
  let env := env_with_status 200 in
  derive_UserId env (file_unsealer "" "s") = inr "u" ∧
  ∃ req,
    calls (AppIdUnsealer_Token env (file_unsealer "" "s") start).2 =
      [goreq_Do req] ∧
    Body req = body_user_id "u".
Proof.
  intros env. split; [reflexivity|].
  apply (AppIdUnsealer_Token_no_hash env (file_unsealer "" "s") "u" start);
    reflexivity.
Defined.



(** * Further properties *)

(** ** Get and single map updates *)

(** X1.  A key that has no entry gets from [Get] what the wildcard key
    itself gets: the wildcard entry, or the default policy. *)
Theorem Get_absent_as_wildcard (p : policies) (k : string) :
  p !! k = None → Get p k = Get p "*".
Proof.
  intros Hk. unfold Get. rewrite Hk. by destruct (p !! "*").
Qed.

(** X2.  After [p[k] = v] with [k] not the wildcard key, [Get] answers
    [v] for [k] and what it answered before for every other key.  After
    [p["*"] = v], [Get] answers [v] for the wildcard key and for every key
    without an entry, and what it answered before for the keys that have
    one. *)
Theorem Get_after_store (p : policies) (k j : string) (v : option policy) :
  (k ≠ "*" →
   Get (apply_op p (OpStore k v)) j = if decide (j = k) then v else Get p j) ∧
  Get (apply_op p (OpStore "*" v)) j =
    match p !! j with
    | Some pol => if decide (j = "*") then v else pol
    | None => v
    end.
Proof.
  unfold Get, apply_op. split.
  - intros Hk. case_decide as Hj.
    + subst j. by rewrite lookup_insert_eq.
    + rewrite lookup_insert_ne by done.
      by rewrite (lookup_insert_ne p k "*" v) by done.
  - destruct (decide (j = "*")) as [->|Hj].
    + rewrite lookup_insert_eq. by destruct (p !! "*").
    + rewrite lookup_insert_ne by done. rewrite lookup_insert_eq.
      by destruct (p !! j).
Qed.

(** X3.  After [delete(p, k)] with [k] not the wildcard key, [Get] answers
    for [k] what it answers for the wildcard key, and its answer for every
    other key is what it was. *)
Theorem Get_after_delete (p : policies) (k j : string) :
  k ≠ "*" →
  Get (apply_op p (OpDelete k)) j =
    if decide (j = k) then Get p "*" else Get p j.
Proof.
  intros Hk. unfold Get, apply_op. case_decide as Hj.
  - subst j. rewrite lookup_delete_eq, lookup_delete_ne by done.
    by destruct (p !! "*").
  - rewrite lookup_delete_ne by done.
    by rewrite (lookup_delete_ne p k "*") by done.
Qed.

(** ** Load: the remaining branches and the effects *)

Section LoadFurther.
Context (env : Env).

Lemma Load_inl (p : policies) tok w err :
  transport env (calls w) (VaultRequest_Do (Load_request env tok)) = inl err →
  Load env p tok w =
    (p, Some (policyLoadError err),
     {| calls := calls w ++ [VaultRequest_Do (Load_request env tok)];
        logged := logged w |}).
Proof. intros Htr. unfold Load, bind, do_call. by rewrite Htr. Qed.

(** X4.  When the policy request gets no response, [Load] returns a
    [policyLoadError] around the transport's error and leaves the store as
    it was. *)
Theorem Load_transport_failure (p : policies) tok w err :
  transport env (calls w) (VaultRequest_Do (Load_request env tok)) = inl err →
  (Load env p tok w).1 = (p, Some (policyLoadError err)).
Proof. intros Htr. by rewrite (Load_inl _ _ _ _ Htr). Qed.

(** X5.  When the policy request is answered with status 200 and the body
    does not decode, [Load] returns a [policyLoadError] around the
    diagnostic about vault-cli and leaves the store as it was. *)
Theorem Load_decode_failure (p : policies) tok w r derr :
  transport env (calls w) (VaultRequest_Do (Load_request env tok)) = inr r →
  StatusCode r = 200 →
  json_policies_data env (RespBody r) = inl derr →
  (Load env p tok w).1 =
    (p, Some (policyLoadError (fmt_Errorf decode_diagnostic))).
Proof.
  intros Htr Hst Hd. by rewrite (Load_inr _ _ _ _ _ Htr), Hst, Hd.
Qed.

(** X6.  Whatever the outcome, [Load] makes one call: the policy request
    through [VaultRequest.Do], a request without body that follows up to
    10 redirects, forwards its headers on redirect and carries the token
    in the single header [X-Vault-Token].  It logs one line when the
    answer has status 404 and nothing otherwise. *)
Theorem Load_effects (p : policies) tok w :
  let req := Load_request env tok in
  let line :=
    match transport env (calls w) (VaultRequest_Do req) with
    | inr r => if StatusCode r =? 404 then [no_policy_line env] else []
    | inl _ => []
    end in
  (Load env p tok w).2 =
    {| calls := calls w ++ [VaultRequest_Do req];
       logged := logged w ++ line |} ∧
  headers req = [("X-Vault-Token", tok)] ∧
  Body req = body_nil ∧ MaxRedirects req = 10 ∧ RedirectHeaders req = true.
Proof.
  cbv zeta. split; [|done].
  destruct (transport env (calls w) (VaultRequest_Do (Load_request env tok)))
    as [err|r] eqn:Htr.
  - rewrite (Load_inl _ _ _ _ Htr). simpl. by rewrite app_nil_r.
  - rewrite (Load_inr _ _ _ _ _ Htr).
    destruct (StatusCode r =? 200) eqn:H200.
    + apply Z.eqb_eq in H200. rewrite H200. simpl. rewrite app_nil_r.
      by destruct (json_policies_data env (RespBody r)).
    + destruct (StatusCode r =? 404); simpl; [done|]. by rewrite app_nil_r.
Qed.

(** X7.  Every error [Load] returns is a [policyLoadError], its message
    starts with the words about loading policy from vault, and the store
    is then as it was before the call. *)
Theorem Load_error_keeps_store (p : policies) tok w e :
  (Load env p tok w).1.2 = Some e →
  (Load env p tok w).1.1 = p ∧
  ∃ inner, e = policyLoadError inner ∧
           Error e = "Error loading policy from vault: " +:+ Error inner.
Proof.
  destruct (transport env (calls w) (VaultRequest_Do (Load_request env tok)))
    as [err|r] eqn:Htr.
  - rewrite (Load_inl _ _ _ _ Htr). simpl. intros [= <-]. eauto.
  - rewrite (Load_inr _ _ _ _ _ Htr).
    destruct (StatusCode r =? 200).
    + destruct (json_policies_data env (RespBody r)); simpl; [|done].
      intros [= <-]. eauto.
    + destruct (StatusCode r =? 404); simpl; [done|].
      intros [= <-]. eauto.
Qed.

(** X8.  [Load] returns no error exactly when the policy request is
    answered with status 200 and a body that decodes, or with status
    404. *)
Theorem Load_succeeds_iff (p : policies) tok w :
  (Load env p tok w).1.2 = None ↔
  ∃ r, transport env (calls w) (VaultRequest_Do (Load_request env tok)) = inr r ∧
       ((StatusCode r = 200 ∧
         ∃ D, json_policies_data env (RespBody r) = inr D) ∨
        StatusCode r = 404).
Proof.
  destruct (transport env (calls w) (VaultRequest_Do (Load_request env tok)))
    as [err|r] eqn:Htr.
  - rewrite (Load_inl _ _ _ _ Htr). simpl. split; [done|].
    by intros (r & [=] & _).
  - rewrite (Load_inr _ _ _ _ _ Htr).
    destruct (StatusCode r =? 200) eqn:H200.
    + apply Z.eqb_eq in H200.
      destruct (json_policies_data env (RespBody r)) as [derr|D] eqn:HD;
        simpl.
      * split; [done|]. intros (r' & [= <-] & [[_ [D HD']]|H404]).
        -- by rewrite HD in HD'.
        -- by rewrite H200 in H404.
      * split; [|done]. intros _. exists r. split; [done|]. left.
        split; [done|]. by exists D.
    + apply Z.eqb_neq in H200.
      destruct (StatusCode r =? 404) eqn:H404; simpl.
      * apply Z.eqb_eq in H404. split; [|done]. intros _. exists r. eauto.
      * apply Z.eqb_neq in H404. split; [done|].
        by intros (r' & [= <-] & [[? _]|?]).
Qed.

(** X9.  After a [Load] that was answered with status 404, [Get] answers
    every key with the policy list [default] and ttl 21600. *)
Theorem Load_404_then_Get (p : policies) tok w r (k : string) :
  transport env (calls w) (VaultRequest_Do (Load_request env tok)) = inr r →
  StatusCode r = 404 →
  Get (Load env p tok w).1.1 k =
    Some {| Policies := ["default"]; Meta := ∅; Ttl := 21600; NumUses := 0 |}.
Proof.
  intros Htr Hst. rewrite (Load_inr _ _ _ _ _ Htr), Hst.
  change (404 =? 200) with false. change (404 =? 404) with true.
  cbv beta iota. unfold bind, log_Printf, ret. cbv beta iota.
  cbn [fst snd]. rewrite run_ops_Load. unfold Get, defaultPolicies.
  destruct (decide (k = "*")) as [->|Hk].
  - by rewrite lookup_singleton_eq.
  - by rewrite lookup_singleton_ne, lookup_singleton_eq.
Qed.

(** X10.  When the policy request is answered with a status other than
    200 and 404, the message of the error [Load] returns is the words
    about loading policy from vault, the status in decimal, a colon and
    the messages of the backend joined by commas, or [communication
    error.] when the body does not decode. *)
Theorem Load_error_message (p : policies) tok w r :
  transport env (calls w) (VaultRequest_Do (Load_request env tok)) = inr r →
  StatusCode r ≠ 200 →
  StatusCode r ≠ 404 →
  ∃ e, (Load env p tok w).1.2 = Some e ∧
       Error e =
         "Error loading policy from vault: " +:+ fmt_d (StatusCode r) +:+ ": " +:+
         match json_errors env (RespBody r) with
         | inr errs => strings_Join errs ", "
         | inl _ => "communication error."
         end.
Proof.
  intros Htr H200 H404. rewrite (Load_inr _ _ _ _ _ Htr).
  apply Z.eqb_neq in H200, H404. rewrite H200, H404.
  eexists. split; [done|]. cbn [Error]. unfold vaultError_Error.
  rewrite backend_error_Code, backend_error_Errors.
  by destruct (json_errors env (RespBody r)).
Qed.

End LoadFurther.

(** X11.  The order in which the two [range] loops of [Load] go through
    the old and the new map does not matter: every order leaves exactly
    the new entries in the store. *)
Theorem Load_order_independent (ks ks' : list string)
    (kvs kvs' : list (string * option policy)) (p D : policies) :
  ks ≡ₚ (map_to_list p).*1 → ks' ≡ₚ (map_to_list p).*1 →
  kvs ≡ₚ map_to_list D → kvs' ≡ₚ map_to_list D →
  run_ops (Load_ops ks kvs) p = D ∧
  run_ops (Load_ops ks kvs) p = run_ops (Load_ops ks' kvs') p.
Proof.
  intros Hks Hks' Hkvs Hkvs'. unfold Load_ops.
  by rewrite (run_ops_replace ks kvs p D), (run_ops_replace ks' kvs' p D).
Qed.

(** ** The unsealers: errors, effects and the requests sent *)

Section UnsealerFurther.
Context (env : Env).

Lemma genericUnsealer_Token_error (req : Request) w e :
  (genericUnsealer_Token env req w).1.2 = Some e →
  (genericUnsealer_Token env req w).1.1 = "".
Proof.
  unfold genericUnsealer_Token, bind, do_call.
  destruct (transport env (calls w) (goreq_Do req)) as [err|r]; [done|].
  destruct (StatusCode r =? 200); [|done].
  by destruct (json_auth env (RespBody r)).
Qed.

Lemma AppIdUnsealer_Token_cases (a : AppIdUnsealer) w :
  (∃ e, AppIdUnsealer_Token env a w = ("", Some e, w)) ∨
  (∃ uid, AppIdUnsealer_Token env a w =
            genericUnsealer_Token env (AppId_request env a uid) w).
Proof.
  unfold AppIdUnsealer_Token.
  destruct (derive_UserId env a) as [e|u]; [left; by exists e|].
  destruct (select_hasher a) as [e|hasher]; [left; by exists e|].
  right. by eexists.
Qed.

(** X12.  Whenever one of the four [Token] functions returns an error,
    the token it returns with it is the empty string. *)
Theorem Token_error_empty_token w e :
  (∀ t, (TokenUnsealer_Token env t w).1.2 = Some e →
        (TokenUnsealer_Token env t w).1.1 = "") ∧
  (∀ a, (AppIdUnsealer_Token env a w).1.2 = Some e →
        (AppIdUnsealer_Token env a w).1.1 = "") ∧
  (∀ gh, (GithubUnsealer_Token env gh w).1.2 = Some e →
         (GithubUnsealer_Token env gh w).1.1 = "") ∧
  (∀ u, (UserpassUnsealer_Token env u w).1.2 = Some e →
        (UserpassUnsealer_Token env u w).1.1 = "").
Proof.
  split; [|split; [|split]].
  - intros t. unfold TokenUnsealer_Token, bind, do_call.
    destruct (transport env (calls w) (goreq_Do (lookup_self_request env t)))
      as [err|r]; [done|].
    by destruct (StatusCode r =? 200).
  - intros a. destruct (AppIdUnsealer_Token_cases a w) as [[e' ->]|[uid ->]];
      [done|]. apply genericUnsealer_Token_error.
  - intros gh. apply genericUnsealer_Token_error.
  - intros u. apply genericUnsealer_Token_error.
Qed.

(** X13.  None of the four [Token] functions logs, and each makes at most
    one call, through [goreq]'s [Do] and never through [VaultRequest.Do],
    with the method POST and no header except for the self-lookup of the
    static token. *)
Theorem Token_at_most_one_call w :
  let quiet (out : string * option error * World) :=
    logged out.2 = logged w ∧
    (calls out.2 = calls w ∨
     ∃ req, calls out.2 = calls w ++ [goreq_Do req] ∧
            (Method req = "POST" ∧ headers req = [] ∨
             ∃ t, req = lookup_self_request env t)) in
  (∀ t, quiet (TokenUnsealer_Token env t w)) ∧
  (∀ a, quiet (AppIdUnsealer_Token env a w)) ∧
  (∀ gh, quiet (GithubUnsealer_Token env gh w)) ∧
  (∀ u, quiet (UserpassUnsealer_Token env u w)).
Proof.
  cbv zeta. split; [|split; [|split]].
  - intros t. unfold TokenUnsealer_Token, bind, do_call.
    destruct (transport env (calls w) (goreq_Do (lookup_self_request env t)))
      as [err|r].
    + split; [done|]. right. eexists. split; [done|]. right. by exists t.
    + destruct (StatusCode r =? 200); (split; [done|]); right; eexists;
        (split; [done|]); right; by exists t.
  - intros a. destruct (AppIdUnsealer_Token_cases a w) as [[e ->]|[uid ->]].
    + split; [done|]. by left.
    + rewrite genericUnsealer_Token_world. split; [done|]. right.
      eexists. split; [done|]. by left.
  - intros gh. unfold GithubUnsealer_Token.
    rewrite genericUnsealer_Token_world. split; [done|]. right.
    eexists. split; [done|]. by left.
  - intros u. unfold UserpassUnsealer_Token.
    rewrite genericUnsealer_Token_world. split; [done|]. right.
    eexists. split; [done|]. by left.
Qed.

(** X14.  [TokenUnsealer.Token] makes one call, the self-lookup with the
    token in the single header [X-Vault-Token]; when the call gets no
    response it returns the transport's error as it is. *)
Theorem TokenUnsealer_Token_effects (t : TokenUnsealer) w :
  let req := lookup_self_request env t in
  (TokenUnsealer_Token env t w).2 =
    {| calls := calls w ++ [goreq_Do req]; logged := logged w |} ∧
  headers req = [("X-Vault-Token", AuthToken t)] ∧
  Uri req = vaultPath env "/v1/auth/token/lookup-self" "" ∧
  (∀ err, transport env (calls w) (goreq_Do req) = inl err →
          (TokenUnsealer_Token env t w).1 = ("", Some err)).
Proof.
  cbv zeta. unfold TokenUnsealer_Token, bind, do_call.
  destruct (transport env (calls w) (goreq_Do (lookup_self_request env t)))
    as [err|r].
  - split; [done|]. split; [done|]. split; [done|]. by intros ? [= ->].
  - split; [by destruct (StatusCode r =? 200)|]. done.
Qed.

(** X15.  [TokenUnsealer.Token] returns no error exactly when the
    self-lookup is answered with status 200, and then the token it returns
    is the one it was given. *)
Theorem TokenUnsealer_Token_succeeds_iff (t : TokenUnsealer) w :
  ((TokenUnsealer_Token env t w).1.2 = None ↔
   ∃ r, transport env (calls w) (goreq_Do (lookup_self_request env t)) = inr r ∧
        StatusCode r = 200) ∧
  ((TokenUnsealer_Token env t w).1.2 = None →
   (TokenUnsealer_Token env t w).1.1 = AuthToken t).
Proof.
  unfold TokenUnsealer_Token, bind, do_call.
  destruct (transport env (calls w) (goreq_Do (lookup_self_request env t)))
    as [err|r].
  - split; [|done]. split; [done|]. by intros (r & [=] & _).
  - destruct (StatusCode r =? 200) eqn:Hst.
    + apply Z.eqb_eq in Hst. split; [|done]. split; [|done].
      intros _. by exists r.
    + apply Z.eqb_neq in Hst. split; [|done]. split; [done|].
      by intros (r' & [= <-] & ?).
Qed.

(** X16.  When the interface lookup of the method [mac], or the file read
    of the method [file], fails, [Token] of the app-id unsealer returns
    that error and makes no call, whatever the hash method is. *)
Theorem AppIdUnsealer_Token_io_failure (a : AppIdUnsealer) w err :
  (UserIdMethod a = "mac" →
   net_InterfaceByName env (UserIdInterface a) = inl err →
   AppIdUnsealer_Token env a w = ("", Some err, w)) ∧
  (UserIdMethod a = "file" →
   ioutil_ReadFile env (UserIdPath a) = inl err →
   AppIdUnsealer_Token env a w = ("", Some err, w)).
Proof.
  unfold AppIdUnsealer_Token, derive_UserId. split.
  - intros -> ->. done.
  - intros -> ->. done.
Qed.

Lemma derive_UserId_file (a : AppIdUnsealer) (s : string) :
  UserIdMethod a = "file" →
  ioutil_ReadFile env (UserIdPath a) = inr (list_byte_of_string s) →
  derive_UserId env a = inr s.
Proof.
  intros Hm Hf. unfold derive_UserId. rewrite Hm, Hf. simpl.
  by rewrite string_of_list_byte_of_string.
Qed.

Lemma AppIdUnsealer_Token_sends (a : AppIdUnsealer) (u : string) hasher w :
  derive_UserId env a = inr u →
  select_hasher a = inr hasher →
  calls (AppIdUnsealer_Token env a w).2 =
    calls w ++ [goreq_Do (AppId_request env a (hashed_UserId env a hasher u))].
Proof.
  intros Hu Hh. unfold AppIdUnsealer_Token. rewrite Hu, Hh.
  apply genericUnsealer_Token_calls.
Qed.

(** X17.  With the method [file] and no hash method, the [user_id] sent
    is the content of the file byte for byte: nothing is trimmed. *)
Theorem AppIdUnsealer_Token_file_verbatim (a : AppIdUnsealer) (s : string) w :
  UserIdMethod a = "file" →
  ioutil_ReadFile env (UserIdPath a) = inr (list_byte_of_string s) →
  UserIdHash a = "" →
  ∃ req, calls (AppIdUnsealer_Token env a w).2 = calls w ++ [goreq_Do req] ∧
         Body req = body_user_id s ∧ Method req = "POST" ∧
         Uri req = vaultPath env ("/v1/auth/app-id/login/" +:+ AppId a) "".
Proof.
  intros Hm Hf Hh.
  destruct (select_hasher_of a) as (_ & _ & _ & Hnone & _).
  rewrite (AppIdUnsealer_Token_sends a s None w
             (derive_UserId_file a s Hm Hf) (Hnone Hh)).
  by eexists.
Qed.

(** X18.  With a hash method and an empty salt, the [user_id] sent is the
    lowercase hex encoding of the digest of the derived user id alone: no
    dollar sign is put before it.  The encoding is said by character
    codes, as for a salted user id. *)
Theorem AppIdUnsealer_Token_hash_without_salt (a : AppIdUnsealer)
    (u : string) w :
  derive_UserId env a = inr u →
  UserIdSalt a = "" →
  let code (n : N) : N := (if n <? 10 then 48 + n else 87 + n)%N in
  let lower_hex_of (digest : list byte) (uid : string) :=
    String.length uid = (2 * length digest)%nat ∧
    ∀ (i : nat) (b : byte), digest !! i = Some b →
      String.get (2 * i) uid = Some (ascii_of_N (code (Byte.to_N b / 16)%N)) ∧
      String.get (2 * i + 1) uid =
        Some (ascii_of_N (code (Byte.to_N b mod 16)%N)) in
  let sends digest :=
    ∃ req uid,
      calls (AppIdUnsealer_Token env a w).2 = calls w ++ [goreq_Do req] ∧
      Body req = body_user_id uid ∧ uid = EncodeToString digest ∧
      lower_hex_of digest uid in
  (UserIdHash a = "sha256" → sends (sha256_Sum env (list_byte_of_string u))) ∧
  (UserIdHash a = "md5" → sends (md5_Sum env (list_byte_of_string u))) ∧
  (UserIdHash a = "sha1" → sends (sha1_Sum env (list_byte_of_string u))).
Proof.
  intros Hu Hsalt. cbv zeta.
  destruct (select_hasher_of a) as (Hmd5 & Hsha1 & Hsha256 & _ & _).
  split; [|split]; intros Hh.
  - rewrite (AppIdUnsealer_Token_sends a u _ w Hu (Hsha256 Hh)).
    do 2 eexists. split; [done|]. unfold hashed_UserId. rewrite Hsalt.
    split; [done|]. split; [done|]. apply EncodeToString_lower_hex.
  - rewrite (AppIdUnsealer_Token_sends a u _ w Hu (Hmd5 Hh)).
    do 2 eexists. split; [done|]. unfold hashed_UserId. rewrite Hsalt.
    split; [done|]. split; [done|]. apply EncodeToString_lower_hex.
  - rewrite (AppIdUnsealer_Token_sends a u _ w Hu (Hsha1 Hh)).
    do 2 eexists. split; [done|]. unfold hashed_UserId. rewrite Hsalt.
    split; [done|]. split; [done|]. apply EncodeToString_lower_hex.
Qed.

(** X19.  With one of the three hash methods, the [user_id] sent has two
    characters for every byte of the digest that the configured method
    gives for the (salted) user id, all of them among the digits and the
    lowercase letters a to f, whatever the derived user id and the salt
    contain. *)
Theorem AppIdUnsealer_Token_hashed_is_hex (a : AppIdUnsealer) (u : string) w :
  derive_UserId env a = inr u →
  let input := list_byte_of_string
                 (if String.eqb (UserIdSalt a) "" then u
                  else UserIdSalt a +:+ "$" +:+ u) in
  let shape (digest : list byte) :=
    ∃ uid : string,
      calls (AppIdUnsealer_Token env a w).2 =
        calls w ++ [goreq_Do (AppId_request env a uid)] ∧
      uid = EncodeToString digest ∧
      String.length uid = (2 * length digest)%nat ∧
      Forall (λ ch, In ch (list_ascii_of_string "0123456789abcdef"))
             (list_ascii_of_string uid) in
  (UserIdHash a = "md5" → shape (md5_Sum env input)) ∧
  (UserIdHash a = "sha1" → shape (sha1_Sum env input)) ∧
  (UserIdHash a = "sha256" → shape (sha256_Sum env input)).
Proof.
  intros Hu. cbv zeta.
  destruct (select_hasher_of a) as (Hmd5 & Hsha1 & Hsha256 & _ & _).
  split; [|split]; intros Hh.
  - rewrite (AppIdUnsealer_Token_sends a u _ w Hu (Hmd5 Hh)).
    eexists. split; [done|]. unfold hashed_UserId. split; [done|].
    split; [apply EncodeToString_length|apply EncodeToString_lowercase].
  - rewrite (AppIdUnsealer_Token_sends a u _ w Hu (Hsha1 Hh)).
    eexists. split; [done|]. unfold hashed_UserId. split; [done|].
    split; [apply EncodeToString_length|apply EncodeToString_lowercase].
  - rewrite (AppIdUnsealer_Token_sends a u _ w Hu (Hsha256 Hh)).
    eexists. split; [done|]. unfold hashed_UserId. split; [done|].
    split; [apply EncodeToString_length|apply EncodeToString_lowercase].
Qed.

Lemma string_length_app (s t : string) :
  String.length (s +:+ t) = (String.length s + String.length t)%nat.
Proof. induction s as [|ch s IH]; [done|]. simpl. by rewrite IH. Qed.

Lemma HardwareAddr_loop_length (i : nat) (a : list byte) :
  String.length (HardwareAddr_loop i a) =
    match i, a with
    | O, _ :: _ => (3 * length a - 1)%nat
    | _, _ => (3 * length a)%nat
    end.
Proof.
  revert i. induction a as [|b a IH]; intros i; [by destruct i|].
  cbn [HardwareAddr_loop]. rewrite string_length_app.
  cbn [String.length]. rewrite (IH (S i)).
  destruct i; simpl; lia.
Qed.

(** X20.  With the method [mac] and no hash method, the [user_id] sent is
    the hardware address of the named interface written as two lowercase
    hex digits per byte with colons in between; for an interface without
    a hardware address it is the empty string, and no error. *)
Theorem AppIdUnsealer_Token_mac (a : AppIdUnsealer) (iface : Interface) w :
  UserIdMethod a = "mac" →
  net_InterfaceByName env (UserIdInterface a) = inr iface →
  UserIdHash a = "" →
  ∃ uid,
    calls (AppIdUnsealer_Token env a w).2 =
      calls w ++ [goreq_Do (AppId_request env a uid)] ∧
    uid = HardwareAddr_String (HardwareAddr iface) ∧
    String.length uid = (3 * length (HardwareAddr iface) - 1)%nat ∧
    (HardwareAddr iface = [] → uid = "").
Proof.
  intros Hm Hi Hh.
  destruct (select_hasher_of a) as (_ & _ & _ & Hnone & _).
  assert (derive_UserId env a =
          inr (HardwareAddr_String (HardwareAddr iface))) as Hu.
  { unfold derive_UserId. by rewrite Hm, Hi. }
  rewrite (AppIdUnsealer_Token_sends a _ None w Hu (Hnone Hh)).
  exists (HardwareAddr_String (HardwareAddr iface)).
  split; [done|]. split; [done|]. split.
  - unfold HardwareAddr_String. rewrite HardwareAddr_loop_length.
    destruct (HardwareAddr iface); simpl; lia.
  - by intros ->.
Qed.

Lemma genericUnsealer_Token_result (req : Request) w :
  (genericUnsealer_Token env req w).1 =
    match transport env (calls w) (goreq_Do req) with
    | inr r =>
        if StatusCode r =? 200 then
          match json_auth env (RespBody r) with
          | inr t => (ClientToken t, None)
          | inl err => ("", Some err)
          end
        else ("", Some (vaultError_err (backend_error env r)))
    | inl err => ("", Some err)
    end.
Proof.
  unfold genericUnsealer_Token, bind, do_call.
  destruct (transport env (calls w) (goreq_Do req)) as [err|r]; [done|].
  destruct (StatusCode r =? 200); [|done].
  by destruct (json_auth env (RespBody r)).
Qed.

(** X21.  [GithubUnsealer.Token] makes one call: a POST to the github
    login path whose body is the personal token.  Answered with status
    200 and a body that decodes, it returns the [client_token] of the
    body; answered with another status, a [vaultError] with that
    status. *)
Theorem GithubUnsealer_Token_login (gh : GithubUnsealer) w :
  ∃ req,
    (GithubUnsealer_Token env gh w).2 =
      {| calls := calls w ++ [goreq_Do req]; logged := logged w |} ∧
    Method req = "POST" ∧ Body req = body_token (PersonalToken gh) ∧
    headers req = [] ∧ Uri req = vaultPath env "/v1/auth/github/login" "" ∧
    (∀ r t, transport env (calls w) (goreq_Do req) = inr r →
            StatusCode r = 200 → json_auth env (RespBody r) = inr t →
            (GithubUnsealer_Token env gh w).1 = (ClientToken t, None)) ∧
    (∀ r, transport env (calls w) (goreq_Do req) = inr r →
          StatusCode r ≠ 200 →
          ∃ e, (GithubUnsealer_Token env gh w).1 =
                 ("", Some (vaultError_err e)) ∧
               Code e = StatusCode r).
Proof.
  unfold GithubUnsealer_Token. eexists.
  split; [apply genericUnsealer_Token_world|].
  do 4 (split; [done|]). rewrite genericUnsealer_Token_result. split.
  - by intros r t -> -> ->.
  - intros r -> Hst. apply Z.eqb_neq in Hst. rewrite Hst.
    eexists. split; [done|]. apply backend_error_Code.
Qed.

(** X22.  [UserpassUnsealer.Token] makes one call: a POST to the login
    path of the user name whose body is the password; the password is in
    the body only.  Answered with status 200 and a body that decodes, it
    returns the [client_token] of the body; answered with another status,
    a [vaultError] with that status. *)
Theorem UserpassUnsealer_Token_login (u : UserpassUnsealer) w :
  ∃ req,
    (UserpassUnsealer_Token env u w).2 =
      {| calls := calls w ++ [goreq_Do req]; logged := logged w |} ∧
    Method req = "POST" ∧ Body req = body_password (Password u) ∧
    headers req = [] ∧
    Uri req = vaultPath env ("/v1/auth/userpass/login/" +:+ Username u) "" ∧
    (∀ r t, transport env (calls w) (goreq_Do req) = inr r →
            StatusCode r = 200 → json_auth env (RespBody r) = inr t →
            (UserpassUnsealer_Token env u w).1 = (ClientToken t, None)) ∧
    (∀ r, transport env (calls w) (goreq_Do req) = inr r →
          StatusCode r ≠ 200 →
          ∃ e, (UserpassUnsealer_Token env u w).1 =
                 ("", Some (vaultError_err e)) ∧
               Code e = StatusCode r).
Proof.
  unfold UserpassUnsealer_Token. eexists.
  split; [apply genericUnsealer_Token_world|].
  do 4 (split; [done|]). rewrite genericUnsealer_Token_result. split.
  - by intros r t -> -> ->.
  - intros r -> Hst. apply Z.eqb_neq in Hst. rewrite Hst.
    eexists. split; [done|]. apply backend_error_Code.
Qed.

End UnsealerFurther.

(** ** The messages of the errors *)

Lemma uint_no_colon (d : Decimal.uint) :
  ¬ In ":"%char (list_ascii_of_string (NilEmpty.string_of_uint d)).
Proof.
  induction d as [|d IH|d IH|d IH|d IH|d IH|d IH|d IH|d IH|d IH|d IH]; simpl;
    [tauto|intros [H|H]; [discriminate H|exact (IH H)]..].
Qed.

Lemma fmt_d_no_colon (n : Z) :
  ¬ In ":"%char (list_ascii_of_string (fmt_d n)).
Proof.
  unfold fmt_d. destruct n as [|q|q]; simpl.
  - intros [H|[]]. discriminate H.
  - pose proof (uint_no_colon (Pos.to_uint q)) as Hq.
    destruct (Pos.to_uint q); try exact Hq. intros [H|[]]. discriminate H.
  - pose proof (uint_no_colon (Pos.to_uint q)) as Hq. intros [H|H].
    + discriminate H.
    + revert H. destruct (Pos.to_uint q); try exact Hq.
      intros [H|[]]. discriminate H.
Qed.

Lemma colon_prefix_unique (s1 s2 r1 r2 : string) :
  ¬ In ":"%char (list_ascii_of_string s1) →
  ¬ In ":"%char (list_ascii_of_string s2) →
  s1 +:+ String ":" r1 = s2 +:+ String ":" r2 →
  s1 = s2.
Proof.
  revert s2. induction s1 as [|c1 s1 IH]; intros [|c2 s2] H1 H2; simpl in *.
  - done.
  - intros [= <- _]. destruct H2. by left.
  - intros [= -> _]. destruct H1. by left.
  - intros [= -> Hrest]. f_equal. apply IH; [tauto|tauto|done].
Qed.

Lemma fmt_d_inj (a b : Z) : fmt_d a = fmt_d b → a = b.
Proof.
  unfold fmt_d. intros Heq. apply DecimalZ.to_int_inj.
  assert (∀ n, NilZero.int_of_string (NilZero.string_of_int (Z.to_int n)) =
               Some (Z.to_int n)) as Hisi.
  { intros n. apply NilZero.isi; destruct n as [|q|q]; simpl; try discriminate;
      intros [= H]; by apply DecimalPos.Unsigned.to_uint_nonnil in H. }
  apply (f_equal NilZero.int_of_string) in Heq.
  rewrite !Hisi in Heq. by injection Heq.
Qed.

(** X23.  The message of a [vaultError] starts with its code in decimal
    and a colon, so the code can be read back from the message: two
    [vaultError]s with the same message have the same code. *)
Theorem vaultError_Error_code (e1 e2 : vaultError) :
  vaultError_Error e1 = vaultError_Error e2 → Code e1 = Code e2.
Proof.
  unfold vaultError_Error. intros Heq. apply fmt_d_inj.
  eapply colon_prefix_unique; [apply fmt_d_no_colon..|exact Heq].
Qed.

(** X24.  The names of the four unsealers do not depend on their
    credentials and are pairwise different, so a name picks one
    unsealer. *)
Theorem Name_distinct (env : Env) (t : TokenUnsealer) (a : AppIdUnsealer)
    (gh : GithubUnsealer) (u : UserpassUnsealer) :
  NoDup [Name (Unsealer := TokenUnsealer_Unsealer env) t;
         Name (Unsealer := AppIdUnsealer_Unsealer env) a;
         Name (Unsealer := GithubUnsealer_Unsealer env) gh;
         Name (Unsealer := UserpassUnsealer_Unsealer env) u] ∧
  [Name (Unsealer := TokenUnsealer_Unsealer env) t;
   Name (Unsealer := AppIdUnsealer_Unsealer env) a;
   Name (Unsealer := GithubUnsealer_Unsealer env) gh;
   Name (Unsealer := UserpassUnsealer_Unsealer env) u] =
  ["token"; "app-id"; "github"; "userpass"].
Proof.
  split; [|reflexivity]. simpl.
  repeat (apply NoDup_cons; split;
          [intros Hin; repeat (apply elem_of_cons in Hin as [Hin|Hin];
                               [discriminate Hin|]);
           by apply not_elem_of_nil in Hin|]).
  apply NoDup_nil_2.
Qed.

(** ** The further properties at concrete inputs *)

Lemma Get_absent_as_wildcard_witness :
  defaultPolicies !! "alice" = None ∧
  Get defaultPolicies "alice" = Get defaultPolicies "*".
Proof.
  split; [reflexivity|]. apply Get_absent_as_wildcard. reflexivity.
Defined.

Lemma Get_after_delete_witness :
  let p : gmap string (option policy) :=
    <[ "alice" := Some admins ]> {[ "*" := Some readers ]} in
  "alice" ≠ "*" ∧
  Get (apply_op p (OpDelete "alice")) "alice" = Get p "*" ∧
  Get p "*" = Some readers.
Proof.
  intros p. split; [discriminate|]. split; [|reflexivity].
  apply (Get_after_delete p "alice" "alice"). discriminate.
Defined.

Lemma Load_transport_failure_witness :
  let env := canned_env (inl (lib_err "connection refused"))
               (inr ∅) (inr []) (inl (lib_err "EOF")) in
  let p : gmap string (option policy) := {[ "bob" := Some readers ]} in
  (Load env p "t" start).1 =
    (p, Some (policyLoadError (lib_err "connection refused"))).
Proof.
  intros env p.
  apply (Load_transport_failure env p "t" start (lib_err "connection refused")).
  reflexivity.
Defined.

Lemma Load_decode_failure_witness :
  let env := canned_env (inr {| StatusCode := 200; RespBody := "body" |})
               (inl (lib_err "cannot unmarshal string"))
               (inr []) (inl (lib_err "EOF")) in
  let p : gmap string (option policy) := {[ "bob" := Some readers ]} in
  (Load env p "t" start).1 =
    (p, Some (policyLoadError (fmt_Errorf decode_diagnostic))).
Proof.
  intros env p.
  apply (Load_decode_failure env p "t" start
           {| StatusCode := 200; RespBody := "body" |}
           (lib_err "cannot unmarshal string")); reflexivity.
Defined.

Lemma Load_error_keeps_store_witness :
  let env := env_with_status 500 in
  let p : gmap string (option policy) := {[ "bob" := Some readers ]} in
  let e := policyLoadError (vaultError_err
             {| Code := 500; Errors := ["permission denied"] |}) in
  (Load env p "t" start).1.2 = Some e ∧ (Load env p "t" start).1.1 = p.
Proof.
  intros env p e. split; [reflexivity|].
  apply (Load_error_keeps_store env p "t" start e). reflexivity.
Defined.

Lemma Load_404_then_Get_witness :
  let p : gmap string (option policy) := {[ "bob" := Some readers ]} in
  Get (Load (env_with_status 404) p "t" start).1.1 "bob" =
    Some {| Policies := ["default"]; Meta := ∅; Ttl := 21600; NumUses := 0 |}.
Proof.
  intros p.
  apply (Load_404_then_Get (env_with_status 404) p "t" start
           {| StatusCode := 404; RespBody := "body" |}); reflexivity.
Defined.

Lemma Load_error_message_witness :
  let p : gmap string (option policy) := {[ "bob" := Some readers ]} in
  ∃ e, (Load (env_with_status 500) p "t" start).1.2 = Some e ∧
       Error e = "Error loading policy from vault: 500: permission denied".
Proof.
  intros p.
  destruct (Load_error_message (env_with_status 500) p "t" start
              {| StatusCode := 500; RespBody := "body" |} eq_refl)
    as (e & He & Hmsg); [discriminate|discriminate|].
  exists e. split; [exact He|]. rewrite Hmsg. reflexivity.
Defined.

Lemma Load_order_independent_witness :
  let p : gmap string (option policy) :=
    <[ "alice" := Some admins ]> {[ "bob" := Some readers ]} in
  let D : gmap string (option policy) := {[ "*" := Some readers ]} in
  run_ops (Load_ops ["alice"; "bob"] [("*", Some readers)]) p = D ∧
  run_ops (Load_ops ["alice"; "bob"] [("*", Some readers)]) p =
    run_ops (Load_ops ["bob"; "alice"] [("*", Some readers)]) p.
Proof.
  intros p D.
  assert (∀ l, l ≡ₚ ["alice"; "bob"] → l ≡ₚ (map_to_list p).*1) as Hkeys.
  { intros l ->. vm_compute. first [reflexivity | apply perm_swap]. }
  apply (Load_order_independent ["alice"; "bob"] ["bob"; "alice"]
           [("*", Some readers)] [("*", Some readers)] p D).
  - apply Hkeys. reflexivity.
  - apply Hkeys. apply perm_swap.
  - vm_compute. reflexivity.
  - vm_compute. reflexivity.
Defined.

Lemma AppIdUnsealer_Token_file_verbatim_witness :
  let env := env_with_status 200 in
  ioutil_ReadFile env "/etc/user-id" = inr (list_byte_of_string "u") ∧
  ∃ req,
    calls (AppIdUnsealer_Token env (file_unsealer "" "s") start).2 =
      [goreq_Do req] ∧
    Body req = body_user_id "u".
Proof.
  intros env. split; [reflexivity|].
  destruct (AppIdUnsealer_Token_file_verbatim env (file_unsealer "" "s") "u"
              start eq_refl eq_refl eq_refl) as (req & Hcalls & Hbody & _).
  exists req. split; [exact Hcalls|exact Hbody].
Defined.

Lemma AppIdUnsealer_Token_hash_without_salt_witness :
  let env := env_with_status 200 in
  derive_UserId env (file_unsealer "sha256" "") = inr "u" ∧
  sha256_Sum env (list_byte_of_string "u") = [x03; x75] ∧
  ∃ req,
    calls (AppIdUnsealer_Token env (file_unsealer "sha256" "") start).2 =
      [goreq_Do req] ∧
    Body req = body_user_id "0375".
Proof.
  intros env. split; [reflexivity|]. split; [reflexivity|].
  destruct (AppIdUnsealer_Token_hash_without_salt env
              (file_unsealer "sha256" "") "u" start eq_refl eq_refl)
    as [Hsha256 _].
  destruct (Hsha256 eq_refl) as (req & uid & Hcalls & Hbody & -> & _).
  exists req. split; [exact Hcalls|exact Hbody].
Defined.

Lemma AppIdUnsealer_Token_hashed_is_hex_witness :
  let env := env_with_status 200 in
  derive_UserId env (file_unsealer "sha1" "s") = inr "u" ∧
  sha1_Sum env (list_byte_of_string "s$u") = [x02; x73; x24; x75] ∧
  ∃ uid,
    calls (AppIdUnsealer_Token env (file_unsealer "sha1" "s") start).2 =
      [goreq_Do (AppId_request env (file_unsealer "sha1" "s") uid)] ∧
    uid = "02732475" ∧ String.length uid = 8%nat ∧
    Forall (λ ch, In ch (list_ascii_of_string "0123456789abcdef"))
           (list_ascii_of_string uid).
Proof.
  intros env. split; [reflexivity|]. split; [reflexivity|].
  destruct (AppIdUnsealer_Token_hashed_is_hex env (file_unsealer "sha1" "s")
              "u" start eq_refl) as (_ & Hsha1 & _).
  destruct (Hsha1 eq_refl) as (uid & Hcalls & Huid & Hlen & Hhex).
  exists uid. split; [exact Hcalls|]. split; [exact Huid|].
  split; [exact Hlen|exact Hhex].
Defined.

Lemma AppIdUnsealer_Token_mac_witness :
  let env := env_with_status 200 in
  let a := {| AppId := "app"; UserIdMethod := "mac";
              UserIdInterface := "eth0"; UserIdPath := "";
              UserIdHash := ""; UserIdSalt := "" |} in
  calls (AppIdUnsealer_Token env a start).2 =
    [goreq_Do (AppId_request env a "02:42:ac:11:00:02")].
Proof.
  intros env a.
  destruct (AppIdUnsealer_Token_mac env a
              {| HardwareAddr := [x02; x42; xac; x11; x00; x02] |} start
              eq_refl eq_refl eq_refl) as (uid & Hcalls & -> & _).
  exact Hcalls.
Defined.

Lemma vaultError_Error_code_witness :
  let e1 := {| Code := 403; Errors := ["denied"; "sealed"] |} in
  let e2 := {| Code := 403; Errors := ["denied, sealed"] |} in
  vaultError_Error e1 = "403: denied, sealed" ∧
  vaultError_Error e1 = vaultError_Error e2 ∧
  Code e1 = Code e2.
Proof.
  intros e1 e2. split; [reflexivity|]. split; [reflexivity|].
  apply vaultError_Error_code. reflexivity.
Defined.
